(** * batters.py: fantasy points, correlation ranking and regression set-up

    A shallow embedding of [src/batters.py].  The script is a straight
    line of pandas and statsmodels calls over one table; the embedding
    keeps the script's own names ([Points], [corrs], [top_pos], [bot_pos],
    [variables], [to_remove], [reg_variables], [y], [x], [model]) and
    models the library calls it makes by what they compute.

    Numbers are exact rationals: the weights are integers and one half
    and the counting statistics are integers, so the score involves no
    rounding.  A missing value (pandas' NaN) is [None]. *)

From Stdlib Require Import QArith Qabs Lqa.
From stdpp Require Import base option list strings sorting gmap.

Local Open Scope Q_scope.

(** ** Values, series and frames *)

(** One numeric cell: a number, or NaN. *)
Abbreviation cell := (option Q).

Definition NaN : cell := None.

(** A numeric column.  All series of the script come from the one frame
    [batters], so they share its row index and pandas' index alignment is
    position by position. *)
Abbreviation Series := (list cell).

(** A column is numeric or of dtype [object] (names, teams, ...). *)
Inductive column : Type :=
  | Numeric (s : Series)
  | Object (s : list string).

Record DataFrame : Type := mkDataFrame {
  index : list Z;
  columns : list (string * column)
}.

Definition names (df : DataFrame) : list string := (columns df).*1.

Definition nrows (df : DataFrame) : nat := length (index df).

Definition column_length (c : column) : nat :=
  match c with
  | Numeric s => length s
  | Object s => length s
  end.

(** The shape pandas maintains: one entry per row in every column, and
    the provider's column labels are distinct. *)
Definition well_formed (df : DataFrame) : Prop :=
  NoDup (names df) ∧ Forall (λ kc, column_length kc.2 = nrows df) (columns df).

(** ** Exceptions *)

Inductive exception : Type :=
  | KeyError (key : string)
  | TypeError
  | ValueError
  | OSError
  | MissingDataError.

Inductive result (A : Type) : Type :=
  | Ok (a : A)
  | Raise (e : exception).
Arguments Ok {A} a.
Arguments Raise {A} e.

Definition bind {A B : Type} (m : result A) (k : A → result B) : result B :=
  match m with
  | Ok a => k a
  | Raise e => Raise e
  end.

Notation "'let*' x ':=' m 'in' k" := (bind m (λ x, k))
  (at level 10, x name, m at level 100, k at level 200,
   format "'[v' 'let*'  x  ':='  m  'in' '/' k ']'").

(** ** Column access *)

Fixpoint assoc {A : Type} (k : string) (l : list (string * A)) : option A :=
  match l with
  | [] => None
  | (k', a) :: l' => if decide (k' = k) then Some a else assoc k l'
  end.

(** [df[key]] *)
Definition getitem (df : DataFrame) (key : string) : result column :=
  match assoc key (columns df) with
  | Some c => Ok c
  | None => Raise (KeyError key)
  end.

(** [df[key]] used in arithmetic with a float: the column has to be
    numeric.  (On an [object] column the product with [-0.5], or the sum
    with a numeric series, raises [TypeError].) *)
Definition getnum (df : DataFrame) (key : string) : result Series :=
  let* c := getitem df key in
  match c with
  | Numeric s => Ok s
  | Object _ => Raise TypeError
  end.

Fixpoint assign {A : Type} (k : string) (a : A) (l : list (string * A))
  : list (string * A) :=
  match l with
  | [] => [(k, a)]
  | (k', a') :: l' =>
      if decide (k' = k) then (k, a) :: l' else (k', a') :: assign k a l'
  end.

(** [df[key] = s]: replaces the column of that label, or appends a new
    last column. *)
Definition setitem (df : DataFrame) (key : string) (c : column) : DataFrame :=
  {| index := index df; columns := assign key c (columns df) |}.

(** The cell of a numeric column at a row position. *)
Definition at_row (df : DataFrame) (key : string) (i : nat) : option cell :=
  match assoc key (columns df) with
  | Some (Numeric s) => s !! i
  | _ => None
  end.

(** ** Series arithmetic: NaN in, NaN out *)

Definition cmul (c : cell) (k : Q) : cell := (λ v, v * k) <$> c.

Definition cadd (a b : cell) : cell :=
  match a, b with
  | Some u, Some v => Some (u + v)
  | _, _ => None
  end.

Definition smul (s : Series) (k : Q) : Series := (λ c, cmul c k) <$> s.

Definition sadd (a b : Series) : Series := zip_with cadd a b.

Declare Scope series_scope.
Delimit Scope series_scope with series.
Infix "*" := smul : series_scope.
Infix "+" := sadd : series_scope.

(** ** Score derivation (lines 17-28) *)

Definition half : Q := 1 # 2.

Definition Points (batters : DataFrame) : result Series :=
  let* R := getnum batters "R" in
  let* H := getnum batters "H" in
  let* _2B := getnum batters "2B" in
  let* _3B := getnum batters "3B" in
  let* HR := getnum batters "HR" in
  let* RBI := getnum batters "RBI" in
  let* SB := getnum batters "SB" in
  let* CS := getnum batters "CS" in
  let* BB := getnum batters "BB" in
  let* IBB := getnum batters "IBB" in
  let* HBP := getnum batters "HBP" in
  let* SO := getnum batters "SO" in
  Ok (R * 2 +
      H * 1 +
      _2B * 1 +
      _3B * 2 +
      HR * 3 +
      RBI * 2 +
      SB * 1 +
      CS * -1 +
      BB * 1 +
      IBB * 1 +
      HBP * 1 +
      SO * -half)%series.

(** The same expression on the twelve cells of one row. *)
Definition points_cell (R H _2B _3B HR RBI SB CS BB IBB HBP SO : cell) : cell :=
  cadd (cadd (cadd (cadd (cadd (cadd (cadd (cadd (cadd (cadd (cadd
    (cmul R 2) (cmul H 1)) (cmul _2B 1)) (cmul _3B 2)) (cmul HR 3))
    (cmul RBI 2)) (cmul SB 1)) (cmul CS (-1))) (cmul BB 1)) (cmul IBB 1))
    (cmul HBP 1)) (cmul SO (-half)).

(** The weighted input columns, in the order the script reads them. *)
Definition inputs : list string :=
  ["R"; "H"; "2B"; "3B"; "HR"; "RBI"; "SB"; "CS"; "BB"; "IBB"; "HBP"; "SO"]%string.

(** [batters["Points"] = ...] *)
Definition add_Points (batters : DataFrame) : result DataFrame :=
  let* p := Points batters in
  Ok (setitem batters "Points" (Numeric p)).

(** ** Export (line 30) *)

(** A delimited file, kept as its fields: the text of a number is not
    modelled.  pandas writes NaN as an empty field. *)
Inductive field : Type :=
  | Blank
  | Label (s : string)
  | RowLabel (z : Z)
  | Number (q : Q)
  | Text (s : string).

Abbreviation csv := (list (list field)).

Definition field_at (c : column) (i : nat) : field :=
  match c with
  | Numeric s =>
      match s !! i with
      | Some (Some q) => Number q
      | _ => Blank
      end
  | Object s =>
      match s !! i with
      | Some t => Text t
      | None => Blank
      end
  end.

(** [df.to_csv(...)] with its defaults ([header=True], [index=True]): a
    header line with an unlabelled first field, then one line per row,
    the row label first. *)
Definition to_csv (df : DataFrame) : csv :=
  (Blank :: (Label <$> names df))
  :: imap (λ i z, RowLabel z :: ((λ kc, field_at kc.2 i) <$> columns df))
          (index df).

Definition header (f : csv) : list field := default [] (head f).

Definition records (f : csv) : csv := tail f.

(** ** Correlation with Points (lines 33-35) *)

(** A series indexed by column labels, as [batters.corr().Points] is. *)
Abbreviation LabelSeries := (list (string * cell)).

Definition numeric_columns (df : DataFrame) : list (string * Series) :=
  omap (λ kc, match kc.2 with
              | Numeric s => Some (kc.1, s)
              | Object _ => None
              end) (columns df).

(** The rows on which both series are defined (pairwise-complete). *)
Definition both (a b : cell) : option (Q * Q) :=
  match a, b with
  | Some u, Some v => Some (u, v)
  | _, _ => None
  end.

Definition valid_pairs (xs ys : Series) : list (Q * Q) :=
  omap (λ ab, both ab.1 ab.2) (zip xs ys).

Definition Qsum (l : list Q) : Q := foldr Qplus 0 l.

Definition mean (l : list Q) : Q := Qsum l / inject_Z (Z.of_nat (length l)).

(** Sums of squared deviations and of their products over the valid
    pairs, as pandas' [nancorr] accumulates them. *)
Definition deviations (ps : list (Q * Q)) : list (Q * Q) :=
  let mx := mean ps.*1 in
  let my := mean ps.*2 in
  (λ p, (p.1 - mx, p.2 - my)) <$> ps.

Definition ssqdx (ds : list (Q * Q)) : Q := Qsum ((λ d, d.1 * d.1) <$> ds).
Definition ssqdy (ds : list (Q * Q)) : Q := Qsum ((λ d, d.2 * d.2) <$> ds).
Definition covxy (ds : list (Q * Q)) : Q := Qsum ((λ d, d.1 * d.2) <$> ds).

(** Pearson's coefficient of two series is
    [r = covxy / sqrt (ssqdx * ssqdy)], and NaN when that divisor is 0
    (no valid pair, or one side constant on the valid pairs).  The root is
    irrational in general, so the coefficient is carried as [r * |r|],
    which is rational: [covxy * |covxy| / (ssqdx * ssqdy)].  The map
    [r ↦ r * |r|] is strictly increasing and fixes [-1], [0] and [1], so
    the ranking, the sign, definedness and the value 1 are those of [r].
    The fraction is kept in lowest terms. *)
Definition pearson (xs ys : Series) : cell :=
  let ds := deviations (valid_pairs xs ys) in
  let divisor2 := ssqdx ds * ssqdy ds in
  if Qeq_bool divisor2 0 then NaN
  else Some (Qred (covxy ds * Qabs (covxy ds) / divisor2)).


(** [df.corr().Points] (pandas 1.x: [corr] keeps the numeric columns and
    silently leaves the others out). *)
Definition corr_Points (df : DataFrame) : result LabelSeries :=
  match assoc "Points"%string (numeric_columns df) with
  | Some p => Ok ((λ ks, (ks.1, pearson ks.2 p)) <$> numeric_columns df)
  | None => Raise (KeyError "Points")
  end.

Definition dropna (s : LabelSeries) : LabelSeries :=
  filter (λ kv, is_Some kv.2) s.

(** The order of [sort_values(ascending=False)]: larger values first, NaN
    last. *)
Definition ranks_before (a b : string * cell) : Prop :=
  match a.2, b.2 with
  | Some u, Some v => v <= u
  | None, Some _ => False
  | _, None => True
  end.

#[global] Instance ranks_before_dec a b : Decision (ranks_before a b).
Proof.
  unfold ranks_before.
  destruct (a.2) as [u|], (b.2) as [v|]; try (left; exact I); try (right; tauto).
  destruct (Qlt_le_dec u v) as [Hlt|Hle].
  - right. intros Hle. exact (Qlt_not_le _ _ Hlt Hle).
  - left. exact Hle.
Defined.

Definition sort_values (s : LabelSeries) : LabelSeries :=
  merge_sort ranks_before s.

(** [s.head(n)] and [s.tail(n)] *)
Definition head_ {A : Type} (n : nat) (s : list A) : list A := take n s.
Definition tail_ {A : Type} (n : nat) (s : list A) : list A :=
  drop (length s - n) s.

(** [list(s.index)] *)
Definition labels (s : LabelSeries) : list string := s.*1.

Definition corrs (batters : DataFrame) : result LabelSeries :=
  let* corrs := corr_Points batters in
  let corrs := dropna corrs in
  Ok (sort_values corrs).

(** ** Candidate selection (lines 36-38) *)

Definition top_pos (corrs : LabelSeries) : LabelSeries := head_ 30 corrs.
Definition bot_pos (corrs : LabelSeries) : LabelSeries := tail_ 10 corrs.

Definition variables (corrs : LabelSeries) : list string :=
  labels (head_ 30 (top_pos corrs)) ++ labels (head_ 10 (bot_pos corrs)).

(** ** Variable filtering (lines 41-55) *)

Definition to_remove : list string :=
  ["Points";
   "SB-X (pi)";
   "wSB/C (pi)";
   "KN% (pi)";
   "KN%";
   "XX% (pi)";
   "KN% (sc)";
   "CS% (pi)";
   "vSB (pi)";
   "SB% (pi)"]%string.

(** The loop: [for par in vars: if par not in denylist: acc.append(par)]. *)
Definition remove_from (denylist vars : list string) : list string :=
  foldl (λ acc par, if decide (par ∉ denylist) then acc ++ [par] else acc)
        [] vars.

Definition reg_variables (variables : list string) : list string :=
  remove_from to_remove variables.

(** ** Regression set-up (lines 58-60) *)

Fixpoint collect {A : Type} (l : list (result A)) : result (list A) :=
  match l with
  | [] => Ok []
  | m :: l' =>
      let* a := m in
      let* l'' := collect l' in
      Ok (a :: l'')
  end.

(** [df[keys]] with a list of labels: the sub-frame of those columns, in
    the order of the list; a label that is not a column raises. *)
Definition getitems (df : DataFrame) (keys : list string) : result DataFrame :=
  let* cols := collect ((λ k, let* c := getitem df k in Ok (k, c)) <$> keys) in
  Ok {| index := index df; columns := cols |}.

Definition y (batters : DataFrame) : result column := getitem batters "Points".

Definition x (batters : DataFrame) (reg_variables : list string)
  : result DataFrame := getitems batters reg_variables.

(** statsmodels' [missing] option of a model: ['none'] does no NaN
    handling, ['drop'] leaves out every observation with a NaN, ['raise']
    raises on a NaN. *)
Inductive missing_option : Type :=
  | missing_none
  | missing_drop
  | missing_raise.

(** One observation: the response and the row of predictor values. *)
Abbreviation observation := (cell * list cell)%type.

Definition complete (o : observation) : Prop :=
  is_Some o.1 ∧ Forall is_Some o.2.

#[global] Instance complete_dec o : Decision (complete o).
Proof. unfold complete. apply _. Defined.

Definition handle_missing (missing : missing_option) (obs : list observation)
  : result (list observation) :=
  match missing with
  | missing_none => Ok obs
  | missing_drop => Ok (filter complete obs)
  | missing_raise =>
      if decide (Forall complete obs) then Ok obs else Raise MissingDataError
  end.

(** The arrays a model holds: the names of the design-matrix columns and
    one observation per row kept. *)
Record OLSModel : Type := mkOLS {
  exog_names : list string;
  data : list observation
}.


Definition observations (endog : Series) (exog : list Series) : list observation :=
  imap (λ i yi, (yi, (λ s, default NaN (s !! i)) <$> exog)) endog.

(** [sm.OLS(endog, exog, missing=...)]: both arguments are turned into
    numeric arrays (an [object] column cannot be), the [missing] option
    is applied, and the design matrix is [exog] as given: statsmodels adds
    no column of ones unless the caller does ([sm.add_constant]). *)
Definition OLS (endog : column) (exog : DataFrame) (missing : missing_option)
  : result OLSModel :=
  match endog with
  | Object _ => Raise ValueError
  | Numeric ys =>
      if decide (length (numeric_columns exog) = length (columns exog)) then
        let* obs := handle_missing missing
                      (observations ys (numeric_columns exog).*2) in
        Ok {| exog_names := names exog; data := obs |}
      else Raise ValueError
  end.

(** The default of the keyword the script leaves out. *)
Definition OLS_missing_default : missing_option := missing_none.

(** [model = sm.OLS(y, x)] *)
Definition model (batters : DataFrame) (reg_variables : list string)
  : result OLSModel :=
  let* y := y batters in
  let* x := x batters reg_variables in
  OLS y x OLS_missing_default.

(** ** The script, top to bottom *)

Inductive stage : Type :=
  | Acquisition
  | Score
  | Export
  | Ranking
  | Regression.

Inductive exit : Type :=
  | Completed
  | Aborted (s : stage) (e : exception).

Section Script.
(** What statsmodels and the numerical routines under it do with a
    model afterwards ([fit()] and [summary()]) is left open: any
    function from the model's arrays to a report, or an exception. *)
Context {Summary : Type} (fit : OLSModel → result Summary).

Record World : Type := mkWorld {
  files : gmap string csv;
  read_only : gset string;
  stdout : list Summary
}.

Definition write_file (w : World) (path : string) (content : csv)
  : result World :=
  if decide (path ∈ read_only w) then Raise OSError
  else Ok {| files := <[path := content]> (files w);
             read_only := read_only w;
             stdout := stdout w |}.

Definition print (w : World) (s : Summary) : World :=
  {| files := files w; read_only := read_only w; stdout := stdout w ++ [s] |}.

(** [acquired] is what [pb.batting_stats(2021, qual=10)] returns or
    raises. *)
Definition main (w : World) (acquired : result DataFrame) : World * exit :=
  match acquired with
  | Raise e => (w, Aborted Acquisition e)
  | Ok batters =>
  match add_Points batters with
  | Raise e => (w, Aborted Score e)
  | Ok batters =>
  match write_file w "batterpoints.csv" (to_csv batters) with
  | Raise e => (w, Aborted Export e)
  | Ok w =>
  match corrs batters with
  | Raise e => (w, Aborted Ranking e)
  | Ok corrs =>
  let variables := variables corrs in
  let reg_variables := reg_variables variables in
  match model batters reg_variables with
  | Raise e => (w, Aborted Regression e)
  | Ok model =>
  match fit model with
  | Raise e => (w, Aborted Regression e)
  | Ok residuals => (print w residuals, Completed)
  end end end end end end.
End Script.

Arguments World : clear implicits.

(** ** Sample tables *)

Definition counts (l : list Z) : column :=
  Numeric ((λ z, Some (inject_Z z)) <$> l).

Definition zeros (n : nat) : column := counts (replicate n 0%Z).

(** Three players; only runs and hits are non-zero, so the scores are
    3, 1 and 4. *)
Definition sample : DataFrame :=
  {| index := [0; 1; 2]%Z;
     columns :=
       [("Name", Object ["a"; "b"; "c"]);
        ("R", counts [1; 0; 2]%Z); ("H", counts [1; 1; 0]%Z);
        ("2B", zeros 3); ("3B", zeros 3); ("HR", zeros 3); ("RBI", zeros 3);
        ("SB", zeros 3); ("CS", zeros 3); ("BB", zeros 3); ("IBB", zeros 3);
        ("HBP", zeros 3); ("SO", zeros 3)]%string |}.

(** The same table with the strikeouts of the second player missing. *)
Definition sample_nan : DataFrame :=
  setitem sample "SO" (Numeric [Some 0; NaN; Some 0]).

(** [sample] with its score column, and the ranking of its columns. *)
Definition scored : DataFrame :=
  Eval vm_compute in
    match add_Points sample with
    | Ok enriched => enriched
    | Raise _ => sample
    end.


Definition ranking : LabelSeries :=
  Eval vm_compute in
    match corrs scored with
    | Ok cs => cs
    | Raise _ => []
    end.


(** Four players, with an exit velocity that was not measured for the
    second one. *)
Definition gappy : DataFrame :=
  {| index := [0; 1; 2; 3]%Z;
     columns :=
       [("R", counts [1; 0; 2; 1]%Z); ("H", counts [1; 1; 0; 3]%Z);
        ("2B", zeros 4); ("3B", zeros 4); ("HR", zeros 4); ("RBI", zeros 4);
        ("SB", zeros 4); ("CS", zeros 4); ("BB", zeros 4); ("IBB", zeros 4);
        ("HBP", zeros 4); ("SO", zeros 4);
        ("EV", Numeric [Some 90; NaN; Some 85; Some 88])]%string |}.

Definition gappy_scored : DataFrame :=
  Eval vm_compute in
    match add_Points gappy with
    | Ok enriched => enriched
    | Raise _ => gappy
    end.



(** A run on [gappy] in an empty directory, with a fitting routine that
    rejects a design matrix holding a NaN. *)
Definition strict_fit (m : OLSModel) : result unit :=
  if decide (Forall complete (data m)) then Ok () else Raise MissingDataError.

Definition fresh : World unit :=
  {| files := ∅; read_only := ∅; stdout := [] |}.

(** [sample] without its home-run column. *)
Definition sample_no_HR : DataFrame :=
  {| index := index sample;
     columns := filter (λ kc, kc.1 ≠ "HR"%string) (columns sample) |}.

(** * Properties *)

(** Membership in a list given by its elements. *)
Ltac in_list := by repeat constructor.

(** ** Column access *)

Lemma assoc_assign_eq {A : Type} (k : string) (a : A) l :
  assoc k (assign k a l) = Some a.
Proof.
  induction l as [|[k' a'] l IH]; simpl.
  - by rewrite decide_True.
  - destruct (decide (k' = k)) as [->|Hne]; simpl.
    + by rewrite decide_True.
    + by rewrite decide_False.
Qed.

Lemma assoc_assign_ne {A : Type} (k k0 : string) (a : A) l :
  k ≠ k0 → assoc k0 (assign k a l) = assoc k0 l.
Proof.
  intros Hne. induction l as [|[k' a'] l IH]; simpl.
  - by rewrite decide_False.
  - destruct (decide (k' = k)) as [->|Hne']; simpl.
    + by rewrite !decide_False.
    + destruct (decide (k' = k0)); [done | apply IH].
Qed.

Lemma assoc_elem_of {A : Type} (k : string) (a : A) l :
  assoc k l = Some a → (k, a) ∈ l.
Proof.
  induction l as [|[k' a'] l IH]; simpl; [done |].
  destruct (decide (k' = k)) as [->|Hne]; intros H.
  - injection H as <-. left.
  - right. by apply IH.
Qed.

Lemma assoc_None {A : Type} (k : string) (l : list (string * A)) :
  assoc k l = None ↔ k ∉ l.*1.
Proof.
  induction l as [|[k' a'] l IH]; simpl.
  - split; [intros _; apply not_elem_of_nil | done].
  - destruct (decide (k' = k)) as [->|Hne].
    + split; [done | intros H; destruct H; left].
    + rewrite IH, not_elem_of_cons. split; [by intros ? | by intros [_ ?]].
Qed.

Lemma assign_fresh {A : Type} (k : string) (a : A) l :
  k ∉ l.*1 → assign k a l = l ++ [(k, a)].
Proof.
  induction l as [|[k' a'] l IH]; simpl; [done |].
  rewrite not_elem_of_cons. intros [Hne Hnin].
  rewrite decide_False by done. by rewrite IH.
Qed.

Lemma at_row_getnum df k i c :
  at_row df k i = Some c → ∃ s, getnum df k = Ok s ∧ s !! i = Some c.
Proof.
  unfold at_row, getnum, getitem.
  destruct (assoc k (columns df)) as [[s|s]|]; simpl; [|done..].
  intros H. by exists s.
Qed.

Lemma at_row_setitem df k s i :
  at_row (setitem df k (Numeric s)) k i = s !! i.
Proof. unfold at_row, setitem; simpl. by rewrite assoc_assign_eq. Qed.

(** ** Series arithmetic, row by row *)

Lemma lookup_smul s k i c :
  s !! i = Some c → smul s k !! i = Some (cmul c k).
Proof. intros H. unfold smul. by rewrite list_lookup_fmap, H. Qed.

Lemma lookup_sadd a b i ca cb :
  a !! i = Some ca → b !! i = Some cb → sadd a b !! i = Some (cadd ca cb).
Proof. intros Ha Hb. unfold sadd. by rewrite lookup_zip_with, Ha, Hb. Qed.

Lemma cadd_NaN_r a : cadd a NaN = NaN.
Proof. by destruct a. Qed.

Lemma cadd_NaN_l b : cadd NaN b = NaN.
Proof. done. Qed.

Lemma cmul_NaN k : cmul NaN k = NaN.
Proof. done. Qed.

(** The score of a row is the cell expression on the row's inputs, and
    the derivation does not raise as soon as the twelve columns are there
    and numeric. *)
Lemma Points_row batters i cR cH c2B c3B cHR cRBI cSB cCS cBB cIBB cHBP cSO :
  at_row batters "R" i = Some cR →
  at_row batters "H" i = Some cH →
  at_row batters "2B" i = Some c2B →
  at_row batters "3B" i = Some c3B →
  at_row batters "HR" i = Some cHR →
  at_row batters "RBI" i = Some cRBI →
  at_row batters "SB" i = Some cSB →
  at_row batters "CS" i = Some cCS →
  at_row batters "BB" i = Some cBB →
  at_row batters "IBB" i = Some cIBB →
  at_row batters "HBP" i = Some cHBP →
  at_row batters "SO" i = Some cSO →
  ∃ enriched,
    add_Points batters = Ok enriched ∧
    at_row enriched "Points" i
    = Some (points_cell cR cH c2B c3B cHR cRBI cSB cCS cBB cIBB cHBP cSO).
Proof.
  intros H1 H2 H3 H4 H5 H6 H7 H8 H9 H10 H11 H12.
  apply at_row_getnum in H1 as (s1 & E1 & L1), H2 as (s2 & E2 & L2),
    H3 as (s3 & E3 & L3), H4 as (s4 & E4 & L4), H5 as (s5 & E5 & L5),
    H6 as (s6 & E6 & L6), H7 as (s7 & E7 & L7), H8 as (s8 & E8 & L8),
    H9 as (s9 & E9 & L9), H10 as (s10 & E10 & L10),
    H11 as (s11 & E11 & L11), H12 as (s12 & E12 & L12).
  unfold add_Points, Points.
  rewrite E1, E2, E3, E4, E5, E6, E7, E8, E9, E10, E11, E12. simpl.
  eexists; split; [reflexivity |].
  rewrite at_row_setitem. unfold points_cell.
  repeat (apply lookup_sadd; [| by apply lookup_smul]).
  by apply lookup_smul.
Qed.



(** C2.  On every row where one of the weighted inputs is NaN, the
    derivation still succeeds (nothing is raised) and the row's Points is
    NaN: no number is put in its place. *)
Theorem Points_missing_propagates batters i :
  (∀ k, k ∈ inputs → is_Some (at_row batters k i)) →
  (∃ k, k ∈ inputs ∧ at_row batters k i = Some NaN) →
  ∃ enriched,
    add_Points batters = Ok enriched ∧
    at_row enriched "Points" i = Some NaN.
Proof.
  intros Hall (k & Hk & Hnan).
  assert (Hin : ∀ k', k' ∈ inputs → ∃ c, at_row batters k' i = Some c).
  { intros k' Hk'. destruct (Hall k' Hk') as [c Hc]. by exists c. }
  destruct (Hin "R"%string) as [c1 H1]; [in_list |].
  destruct (Hin "H"%string) as [c2 H2]; [in_list |].
  destruct (Hin "2B"%string) as [c3 H3]; [in_list |].
  destruct (Hin "3B"%string) as [c4 H4]; [in_list |].
  destruct (Hin "HR"%string) as [c5 H5]; [in_list |].
  destruct (Hin "RBI"%string) as [c6 H6]; [in_list |].
  destruct (Hin "SB"%string) as [c7 H7]; [in_list |].
  destruct (Hin "CS"%string) as [c8 H8]; [in_list |].
  destruct (Hin "BB"%string) as [c9 H9]; [in_list |].
  destruct (Hin "IBB"%string) as [c10 H10]; [in_list |].
  destruct (Hin "HBP"%string) as [c11 H11]; [in_list |].
  destruct (Hin "SO"%string) as [c12 H12]; [in_list |].
  destruct (Points_row batters i _ _ _ _ _ _ _ _ _ _ _ _
              H1 H2 H3 H4 H5 H6 H7 H8 H9 H10 H11 H12) as (enriched & Hadd & Hrow).
  exists enriched. split; [exact Hadd |]. rewrite Hrow. f_equal.
  unfold inputs in Hk.
  repeat (apply elem_of_cons in Hk as [->|Hk]);
    try (by apply elem_of_nil in Hk);
    match goal with
    | Hc : at_row batters ?key i = Some ?c |- _ =>
        rewrite Hnan in Hc; injection Hc as <-
    end;
    unfold points_cell; rewrite ?cmul_NaN, ?cadd_NaN_l, ?cadd_NaN_r; reflexivity.
Qed.

Lemma Points_missing_propagates_witness :
  ∃ enriched,
    add_Points sample_nan = Ok enriched ∧
    at_row enriched "Points" 1 = Some NaN.
Proof.
  apply (Points_missing_propagates sample_nan 1%nat).
  - intros k Hk. unfold inputs in Hk.
    repeat (apply elem_of_cons in Hk as [->|Hk]);
      try (by apply elem_of_nil in Hk); by eexists.
  - exists "SO"%string. split; [in_list | reflexivity].
Defined.

(** ** Export *)

Lemma add_Points_inv batters enriched :
  add_Points batters = Ok enriched →
  ∃ p, Points batters = Ok p ∧ enriched = setitem batters "Points" (Numeric p).
Proof.
  unfold add_Points. destruct (Points batters) as [p|e]; simpl; [|done].
  intros [= <-]. by exists p.
Qed.

Lemma header_to_csv df : header (to_csv df) = Blank :: (Label <$> names df).
Proof. done. Qed.


Lemma records_to_csv_lookup df i line :
  records (to_csv df) !! i = Some line →
  ∃ z, index df !! i = Some z ∧
       line = RowLabel z :: ((λ kc, field_at kc.2 i) <$> columns df).
Proof.
  unfold records, to_csv; simpl. rewrite list_lookup_imap.
  destruct (index df !! i) as [z|]; simpl; [|done].
  intros [= <-]. by exists z.
Qed.



(** ** Variable filtering *)

Lemma remove_from_filter denylist vars :
  remove_from denylist vars = filter (λ par, par ∉ denylist) vars.
Proof.
  unfold remove_from.
  enough (H : ∀ acc,
    foldl (λ acc par, if decide (par ∉ denylist) then acc ++ [par] else acc)
          acc vars
    = acc ++ filter (λ par, par ∉ denylist) vars) by apply (H []).
  induction vars as [|v vars IH]; intros acc; simpl.
  - by rewrite app_nil_r.
  - rewrite IH, filter_cons. destruct (decide (v ∉ denylist)); [|done].
    by rewrite <- app_assoc.
Qed.

Lemma filter_agree (P1 P2 : string → Prop)
    `{!∀ a, Decision (P1 a), !∀ a, Decision (P2 a)} (l : list string) :
  (∀ a, a ∈ l → P1 a ↔ P2 a) → filter P1 l = filter P2 l.
Proof.
  induction l as [|a l IH]; intros Hiff; [done |].
  rewrite !filter_cons.
  rewrite IH by (intros b Hb; apply Hiff; by right).
  apply decide_ext, Hiff. left.
Qed.

Lemma filter_all (P : string → Prop) `{!∀ a, Decision (P a)} (l : list string) :
  (∀ a, a ∈ l → P a) → filter P l = l.
Proof.
  induction l as [|a l IH]; intros Hall; [done |].
  rewrite filter_cons_True by (apply Hall; left).
  f_equal. apply IH. intros b Hb. apply Hall. by right.
Qed.


(** ** Ranking *)

#[global] Instance ranks_before_total : Total ranks_before.
Proof.
  intros [ka [u|]] [kb [v|]]; unfold ranks_before; simpl; auto.
  destruct (Qlt_le_dec u v) as [Hlt|Hle]; [right | left]; [|done].
  by apply Qlt_le_weak.
Qed.

#[global] Instance ranks_before_trans : Transitive ranks_before.
Proof.
  intros [ka [u|]] [kb [v|]] [kc [w|]]; unfold ranks_before; simpl; auto;
    try tauto.
  intros Hvu Hwv. by apply Qle_trans with v.
Qed.

Lemma sort_values_perm s : sort_values s ≡ₚ s.
Proof. apply merge_sort_Permutation. Qed.

Lemma sort_values_sorted s : StronglySorted ranks_before (sort_values s).
Proof. apply StronglySorted_merge_sort; apply _. Qed.

Lemma dropna_elem_of s k v : (k, v) ∈ dropna s ↔ (k, v) ∈ s ∧ is_Some v.
Proof. unfold dropna. rewrite list_elem_of_filter; simpl. tauto. Qed.

Lemma corrs_inv batters cs :
  corrs batters = Ok cs →
  ∃ raw, corr_Points batters = Ok raw ∧ cs = sort_values (dropna raw).
Proof.
  unfold corrs. destruct (corr_Points batters) as [raw|e]; simpl; [|done].
  intros [= <-]. by exists raw.
Qed.

Lemma corrs_elem_of batters raw cs k v :
  corr_Points batters = Ok raw → corrs batters = Ok cs →
  (k, v) ∈ cs ↔ (k, v) ∈ raw ∧ is_Some v.
Proof.
  intros Hraw Hcs. apply corrs_inv in Hcs as (raw' & Hraw' & ->).
  rewrite Hraw in Hraw'. injection Hraw' as <-.
  by rewrite sort_values_perm, dropna_elem_of.
Qed.

Lemma StronglySorted_lookup {A : Type} (R : relation A) l i j a b :
  StronglySorted R l → (i < j)%nat →
  l !! i = Some a → l !! j = Some b → R a b.
Proof.
  intros Hs. revert i j. induction Hs as [|c l Hs IH Hall]; intros i j Hij.
  - done.
  - destruct j as [|j]; [lia |]. destruct i as [|i]; simpl.
    + intros [= ->] Hb. rewrite Forall_forall in Hall.
      apply Hall. by eapply list_elem_of_lookup_2.
    + apply IH. lia.
Qed.

Lemma variables_slices cs :
  variables cs = labels (take 30 cs) ++ labels (drop (length cs - 10) cs).
Proof.
  unfold variables, top_pos, bot_pos, head_, tail_.
  rewrite take_idemp. f_equal. f_equal.
  apply take_ge. rewrite length_drop. lia.
Qed.

Lemma length_variables cs :
  length (variables cs) = (30 `min` length cs + 10 `min` length cs)%nat.
Proof.
  rewrite variables_slices. unfold labels.
  rewrite length_app, !length_fmap, length_take, length_drop. lia.
Qed.

(** With at least forty entries the two slices do not meet. *)
Lemma variables_sublist cs :
  (40 ≤ length cs)%nat → variables cs `sublist_of` labels cs.
Proof.
  intros Hlen. rewrite variables_slices. unfold labels.
  rewrite <- fmap_app. apply fmap_sublist.
  transitivity (take 30 cs ++ drop 30 cs); [| by rewrite take_drop].
  apply sublist_app; [done |].
  replace (length cs - 10)%nat with (30 + (length cs - 40))%nat by lia.
  rewrite <- drop_drop. apply sublist_drop.
Qed.

(** With fewer, the entry at the start of the bottom slice is in the top
    slice too. *)
Lemma variables_overlap cs :
  (0 < length cs < 40)%nat → ¬ NoDup (variables cs).
Proof.
  intros [Hpos Hlt] Hnd. rewrite variables_slices in Hnd.
  apply NoDup_app in Hnd as (_ & Hdisj & _).
  destruct (lookup_lt_is_Some_2 cs (length cs - 10)) as [[k v] Hkv]; [lia |].
  apply (Hdisj k).
  - apply (list_elem_of_fmap_2' fst _ (k, v)); [|done].
    apply elem_of_take. exists (length cs - 10)%nat. split; [done | lia].
  - apply (list_elem_of_fmap_2' fst _ (k, v)); [|done].
    apply (list_elem_of_lookup_2 _ 0%nat). rewrite lookup_drop.
    by rewrite Nat.add_0_r.
Qed.

(** C3 (as the code has it).  The ranking is the defined correlations in
    descending order; the candidate list is the labels of its first 30
    entries followed by the labels of its last 10 entries, each slice
    being the whole ranking when that is shorter.  With at least 40
    defined correlations these are 40 names, distinct when the labels
    are; with fewer (and at least one) the slices overlap and the names in
    both are listed twice. *)
Theorem variables_top_then_bottom batters cs :
  corrs batters = Ok cs →
  (∃ raw, corr_Points batters = Ok raw ∧ cs ≡ₚ dropna raw) ∧
  (∀ i j ki vi kj vj,
      (i < j)%nat → cs !! i = Some (ki, vi) → cs !! j = Some (kj, vj) →
      ∃ qi qj, vi = Some qi ∧ vj = Some qj ∧ qj <= qi) ∧
  variables cs = labels (take 30 cs) ++ labels (drop (length cs - 10) cs) ∧
  length (variables cs) = (30 `min` length cs + 10 `min` length cs)%nat ∧
  ((40 ≤ length cs)%nat →
     length (variables cs) = 40%nat ∧
     (NoDup (labels cs) → NoDup (variables cs))) ∧
  ((0 < length cs < 40)%nat → ¬ NoDup (variables cs)).
Proof.
  intros Hcs. pose proof Hcs as Hinv.
  apply corrs_inv in Hinv as (raw & Hraw & ->).
  split; [exists raw; split; [done | apply sort_values_perm] |].
  split.
  { intros i j ki vi kj vj Hij Hi Hj.
    assert (Hdef : ∀ n k v, sort_values (dropna raw) !! n = Some (k, v) →
                            is_Some v).
    { intros n k v Hn. apply list_elem_of_lookup_2 in Hn.
      rewrite sort_values_perm in Hn. by apply dropna_elem_of in Hn as [_ ?]. }
    destruct (Hdef _ _ _ Hi) as [qi ->], (Hdef _ _ _ Hj) as [qj ->].
    exists qi, qj. split; [done |]. split; [done |].
    exact (StronglySorted_lookup _ _ _ _ _ _
             (sort_values_sorted _) Hij Hi Hj). }
  split; [apply variables_slices |].
  split; [apply length_variables |].
  split; [| apply variables_overlap].
  intros Hlen. split; [rewrite length_variables; lia |].
  intros Hnd. eapply sublist_NoDup; [done | by apply variables_sublist].
Qed.

(** ** Sums of rationals *)




Lemma Qsum_all_zero l : (∀ q, q ∈ l → q == 0) → Qsum l == 0.
Proof.
  induction l as [|q l IH]; intros Hall; simpl; [reflexivity |].
  rewrite (Hall q) by left. rewrite IH; [ring |].
  intros; apply Hall; by right.
Qed.


Lemma Qsum_const l c :
  (∀ q, q ∈ l → q == c) → Qsum l == inject_Z (Z.of_nat (length l)) * c.
Proof.
  induction l as [|q l IH]; intros Hall.
  - simpl. ring.
  - change (Qsum (q :: l)) with (q + Qsum l).
    rewrite (Hall q) by left. rewrite IH by (intros; apply Hall; by right).
    rewrite length_cons, Nat2Z.inj_succ. unfold Z.succ.
    rewrite inject_Z_plus. ring.
Qed.

Lemma mean_const l c : l ≠ [] → (∀ q, q ∈ l → q == c) → mean l == c.
Proof.
  intros Hne Hall. unfold mean. rewrite (Qsum_const l c Hall).
  field. destruct l as [|q l]; [done |].
  rewrite length_cons, Nat2Z.inj_succ. unfold Z.succ.
  rewrite inject_Z_plus.
  assert (0 <= inject_Z (Z.of_nat (length l))).
  { change 0 with (inject_Z 0). rewrite <- Zle_Qle. lia. }
  change (inject_Z 1) with 1. lra.
Qed.


(** ** Pearson's coefficient *)

Lemma pearson_unfold xs ys :
  pearson xs ys
  = let ds := deviations (valid_pairs xs ys) in
    if Qeq_bool (ssqdx ds * ssqdy ds) 0 then NaN
    else Some (Qred (covxy ds * Qabs (covxy ds) / (ssqdx ds * ssqdy ds))).
Proof. done. Qed.



(** Rows shared with a series on which it takes one value only (none at
    all included) leave the coefficient undefined. *)
Lemma pearson_degenerate xs ys c :
  (∀ u v, (u, v) ∈ valid_pairs xs ys → u == c) → pearson xs ys = NaN.
Proof.
  intros Hconst. rewrite pearson_unfold; simpl.
  set (ps := valid_pairs xs ys) in *.
  assert (Hzero : ssqdx (deviations ps) == 0).
  { destruct (decide (ps = [])) as [->|Hne]; [reflexivity |].
    assert (Hmean : mean ps.*1 == c).
    { apply mean_const.
      - by destruct ps.
      - intros q [[u v] [-> Huv]]%list_elem_of_fmap. by apply (Hconst u v). }
    unfold ssqdx, deviations. apply Qsum_all_zero.
    intros q [d [-> [[u v] [-> Huv]]%list_elem_of_fmap]]%list_elem_of_fmap.
    simpl. rewrite Hmean, (Hconst u v Huv). ring. }
  assert (Hdiv : ssqdx (deviations ps) * ssqdy (deviations ps) == 0)
    by (rewrite Hzero; ring).
  apply Qeq_bool_iff in Hdiv. by rewrite Hdiv.
Qed.

Lemma valid_pairs_l xs ys u v : (u, v) ∈ valid_pairs xs ys → Some u ∈ xs.
Proof.
  unfold valid_pairs.
  intros [[a b] [Hab Hboth]]%list_elem_of_omap.
  destruct a as [a|], b as [b|]; simpl in Hboth; simplify_eq.
  by apply elem_of_zip_l in Hab.
Qed.






(** ** The correlation vector *)

Lemma numeric_columns_elem_of df k s :
  (k, s) ∈ numeric_columns df ↔ (k, Numeric s) ∈ columns df.
Proof.
  unfold numeric_columns. rewrite list_elem_of_omap. split.
  - intros [[k' [s'|s']] [Hin Heq]]; simpl in Heq; simplify_eq. done.
  - intros Hin. by exists (k, Numeric s).
Qed.



Lemma corr_Points_inv df raw :
  corr_Points df = Ok raw →
  ∃ p, assoc "Points"%string (numeric_columns df) = Some p ∧
       raw = (λ ks, (ks.1, pearson ks.2 p)) <$> numeric_columns df.
Proof.
  unfold corr_Points.
  destruct (assoc "Points"%string (numeric_columns df)) as [p|]; [|done].
  intros [= <-]. by exists p.
Qed.

Lemma corr_Points_elem_of df p k v :
  assoc "Points"%string (numeric_columns df) = Some p →
  (k, v) ∈ (λ ks, (ks.1, pearson ks.2 p)) <$> numeric_columns df ↔
  ∃ s, (k, Numeric s) ∈ columns df ∧ v = pearson s p.
Proof.
  intros _. rewrite list_elem_of_fmap. split.
  - intros [[k' s] [[= -> ->] Hin]]. exists s.
    by rewrite <- numeric_columns_elem_of.
  - intros [s [Hin ->]]. exists (k, s).
    by rewrite numeric_columns_elem_of.
Qed.

Lemma NoDup_fst_functional {A : Type} (l : list (string * A)) k a b :
  NoDup l.*1 → (k, a) ∈ l → (k, b) ∈ l → a = b.
Proof.
  induction l as [|[k' c] l IH]; simpl; intros Hnd Ha Hb.
  - by apply elem_of_nil in Ha.
  - apply NoDup_cons in Hnd as [Hnin Hnd].
    apply elem_of_cons in Ha as [Ha|Ha];
      apply elem_of_cons in Hb as [Hb|Hb]; simplify_eq.
    + done.
    + destruct Hnin. by apply (list_elem_of_fmap_2' fst _ (k', b)).
    + destruct Hnin. by apply (list_elem_of_fmap_2' fst _ (k', a)).
    + by apply IH.
Qed.

Lemma variables_subseteq cs k : k ∈ variables cs → k ∈ labels cs.
Proof.
  rewrite variables_slices. unfold labels.
  intros [Hin|Hin]%elem_of_app;
    apply list_elem_of_fmap in Hin as [kv [-> Hin]];
    apply list_elem_of_fmap_2.
  - by apply (sublist_subseteq _ _ (sublist_take cs 30)).
  - by apply (sublist_subseteq _ _ (sublist_drop cs (length cs - 10))).
Qed.

(** C6.  The ranking holds only columns whose coefficient with Points is
    defined, each with that coefficient (none is given 0 or any other
    value in place of NaN); a column whose coefficient is undefined -- for
    instance one that takes a single value, or shares no defined row with
    Points -- is in neither the ranking nor the candidate list. *)
Theorem undefined_correlations_dropped batters cs :
  NoDup (names batters) →
  corrs batters = Ok cs →
  ∃ p,
    assoc "Points"%string (numeric_columns batters) = Some p ∧
    (∀ k v, (k, v) ∈ cs →
       ∃ s q, (k, Numeric s) ∈ columns batters ∧
              pearson s p = Some q ∧ v = Some q) ∧
    (∀ k s, (k, Numeric s) ∈ columns batters → pearson s p = NaN →
       (k ∉ labels cs) ∧ (k ∉ variables cs)) ∧
    (∀ k s c, (k, Numeric s) ∈ columns batters →
       (∀ v, Some v ∈ s → v == c) →
       (k ∉ labels cs) ∧ (k ∉ variables cs)) ∧
    (∀ k s, (k, Numeric s) ∈ columns batters → valid_pairs s p = [] →
       (k ∉ labels cs) ∧ (k ∉ variables cs)).
Proof.
  intros Hnd Hcs.
  apply corrs_inv in Hcs as (raw & Hraw & Hsort).
  apply corr_Points_inv in Hraw as (p & Hp & Hraw).
  exists p. split; [done |].
  assert (Hin : ∀ k v, (k, v) ∈ cs →
    ∃ s q, (k, Numeric s) ∈ columns batters ∧ pearson s p = Some q ∧ v = Some q).
  { intros k v. rewrite Hsort, sort_values_perm, dropna_elem_of, Hraw.
    rewrite (corr_Points_elem_of _ _ _ _ Hp).
    intros [[s [Hs ->]] [q Hq]]. by exists s, q. }
  assert (Hout : ∀ k s,
    (k, Numeric s) ∈ columns batters → pearson s p = NaN → k ∉ labels cs).
  { intros k s Hs Hnan [[k' v] [-> Hkv]]%list_elem_of_fmap. simpl in *.
    destruct (Hin _ _ Hkv) as (s' & q & Hs' & Hq & ->).
    assert (Numeric s = Numeric s') as [= ->].
    { by apply (NoDup_fst_functional (columns batters) k'). }
    rewrite Hnan in Hq. discriminate Hq. }
  split; [exact Hin |].
  assert (Hboth : ∀ k s,
    (k, Numeric s) ∈ columns batters → pearson s p = NaN →
    (k ∉ labels cs) ∧ (k ∉ variables cs)).
  { intros k s Hs Hnan. split; [by eapply Hout |].
    intros Hv%variables_subseteq. by eapply Hout. }
  split; [exact Hboth |]. split.
  - intros k s c Hs Hconst. apply (Hboth k s Hs).
    apply (pearson_degenerate s p c).
    intros u v Huv%valid_pairs_l. by apply Hconst.
  - intros k s Hs Hempty. apply (Hboth k s Hs).
    apply (pearson_degenerate s p 0).
    intros u v. rewrite Hempty. by intros ?%elem_of_nil.
Qed.

Lemma add_Points_sample : add_Points sample = Ok scored.
Proof. reflexivity. Qed.

Lemma corrs_scored : corrs scored = Ok ranking.
Proof. vm_compute. reflexivity. Qed.

Lemma NoDup_names_scored : NoDup (names scored).
Proof. apply (bool_decide_unpack (NoDup (names scored))). vm_compute. exact I. Qed.

Lemma undefined_correlations_dropped_witness :
  ("2B"%string ∉ labels ranking) ∧ ("2B"%string ∉ variables ranking).
Proof.
  destruct (undefined_correlations_dropped scored ranking
              NoDup_names_scored corrs_scored) as (p & _ & _ & _ & Hconst & _).
  apply (Hconst "2B"%string [Some 0; Some 0; Some 0] 0).
  - in_list.
  - intros v Hv.
    repeat (apply elem_of_cons in Hv as [[= ->]|Hv]; [reflexivity |]).
    by apply elem_of_nil in Hv.
Defined.

(** C3 as stated fails on a table with fewer than forty ranked columns:
    on the three-row sample the candidate list has six entries, every
    name twice. *)
Lemma variables_not_forty_names :
  add_Points sample = Ok scored ∧
  corrs scored = Ok ranking ∧
  variables ranking = ["Points"; "R"; "H"; "Points"; "R"; "H"]%string ∧
  length (variables ranking) ≠ 40%nat ∧
  ¬ NoDup (variables ranking).
Proof.
  split; [reflexivity |]. split; [exact corrs_scored |].
  split; [reflexivity |]. split; [discriminate |].
  apply (bool_decide_unpack (¬ NoDup (variables ranking))). vm_compute. exact I.
Qed.

Lemma variables_top_then_bottom_witness :
  variables ranking
  = labels (take 30 ranking) ++ labels (drop (length ranking - 10) ranking) ∧
  length (variables ranking) = 6%nat.
Proof.
  destruct (variables_top_then_bottom scored ranking corrs_scored)
    as (_ & _ & Hslices & Hlen & _).
  split; [exact Hslices | exact Hlen].
Defined.

(** ** Points in the ranking *)





(** ** The regression model *)

Lemma collect_Forall2 {A B : Type} (f : A → result B) keys cols :
  collect (f <$> keys) = Ok cols → Forall2 (λ k c, f k = Ok c) keys cols.
Proof.
  revert cols. induction keys as [|k keys IH]; intros cols.
  - intros [= <-]. constructor.
  - change (collect (f <$> k :: keys))
      with (let* a := f k in let* l := collect (f <$> keys) in Ok (a :: l)).
    destruct (f k) as [c|e] eqn:Hk; simpl; [|done].
    destruct (collect (f <$> keys)) as [cols'|e] eqn:Hks; simpl; [|done].
    intros [= <-]. constructor; [done | by apply IH].
Qed.

Lemma getitems_inv df keys sub :
  getitems df keys = Ok sub →
  index sub = index df ∧
  Forall2 (λ k kc, ∃ c, getitem df k = Ok c ∧ kc = (k, c)) keys (columns sub).
Proof.
  unfold getitems.
  destruct (collect _) as [cols|e] eqn:Hcols; simpl; [|done].
  intros [= <-]; simpl. split; [done |].
  apply collect_Forall2 in Hcols.
  eapply Forall2_impl; [exact Hcols |]. simpl.
  intros k kc. destruct (getitem df k) as [c|e]; simpl; [|done].
  intros [= <-]. by exists c.
Qed.

Lemma getitems_names df keys sub : getitems df keys = Ok sub → names sub = keys.
Proof.
  intros [_ Hcols]%getitems_inv. unfold names.
  induction Hcols as [|k kc keys cols (c & _ & ->) _ IH]; [done |].
  rewrite fmap_cons. cbn [fst]. by f_equal.
Qed.





Lemma model_inv batters regs m :
  model batters regs = Ok m →
  ∃ ys sub,
    y batters = Ok (Numeric ys) ∧
    x batters regs = Ok sub ∧
    length (numeric_columns sub) = length (columns sub) ∧
    m = {| exog_names := names sub;
           data := observations ys (numeric_columns sub).*2 |}.
Proof.
  unfold model.
  destruct (y batters) as [[ys|ys]|e]; simpl; [|by destruct (x batters regs)..].
  destruct (x batters regs) as [sub|e]; simpl; [|done].
  destruct (decide _) as [Hlen|]; [|done]. simpl.
  intros [= <-]. by exists ys, sub.
Qed.


Lemma model_exog_names batters regs m :
  model batters regs = Ok m → exog_names m = regs.
Proof.
  intros (ys & sub & _ & Hx & _ & ->)%model_inv. simpl.
  by apply getitems_names in Hx.
Qed.

(** C5.  The loop keeps, in the order of the candidate list, exactly the
    candidates that are not on the denylist: the result is a sublist of
    the candidates, holds no denylisted name (so never "Points"), and a
    denylisted name that is not among the candidates changes nothing.
    The loop is a total function: it raises on no input.  The predictors
    of the regression model are this list, so no denylisted name is one
    of them, whatever the candidates were. *)
Theorem reg_variables_filtered (vars : list string) :
  (reg_variables vars = filter (λ par, par ∉ to_remove) vars) ∧
  (reg_variables vars `sublist_of` vars) ∧
  (∀ par, par ∈ reg_variables vars ↔ par ∈ vars ∧ par ∉ to_remove) ∧
  (∀ d, d ∈ to_remove → d ∉ reg_variables vars) ∧
  ("Points"%string ∉ reg_variables vars) ∧
  (∀ d, d ∈ to_remove → d ∉ vars →
        reg_variables vars
        = remove_from (filter (λ d', d' ≠ d) to_remove) vars) ∧
  ((∀ d, d ∈ to_remove → d ∉ vars) → reg_variables vars = vars) ∧
  (∀ batters m d,
      model batters (reg_variables vars) = Ok m →
      d ∈ to_remove → d ∉ exog_names m).
Proof.
  assert (Hmem : ∀ par,
    par ∈ reg_variables vars ↔ par ∈ vars ∧ par ∉ to_remove).
  { intros par. unfold reg_variables.
    rewrite remove_from_filter, list_elem_of_filter. tauto. }
  split; [apply remove_from_filter |].
  split; [unfold reg_variables; rewrite remove_from_filter;
          apply sublist_filter |].
  split; [exact Hmem |].
  split; [intros d Hd Hin; apply Hmem in Hin; tauto |].
  split; [intros Hin; apply Hmem in Hin as [_ Hn]; apply Hn; in_list |].
  split; [| split].
  - intros d Hd Habsent. unfold reg_variables.
    rewrite !remove_from_filter. apply filter_agree.
    intros par Hpar. rewrite list_elem_of_filter. split.
    + intros Hn [_ Hin]. by apply Hn.
    + intros Hn Hin. apply Hn. split; [|done].
      intros ->. by apply Habsent.
  - intros Habsent. unfold reg_variables. rewrite remove_from_filter.
    apply filter_all. intros par Hpar Hin. by apply (Habsent par).
  - intros batters m d Hm Hd. rewrite (model_exog_names _ _ _ Hm).
    intros Hin. apply Hmem in Hin. tauto.
Qed.


Lemma add_Points_gappy : add_Points gappy = Ok gappy_scored.
Proof. reflexivity. Qed.





Lemma well_formed_length df k s :
  well_formed df → assoc k (columns df) = Some (Numeric s) →
  length s = nrows df.
Proof.
  intros [_ Hall] Hk%assoc_elem_of.
  rewrite Forall_forall in Hall. exact (Hall _ Hk).
Qed.



(** ** Order of the side effects *)

Lemma write_file_lookup {Summary : Type} (w w' : World Summary) path content :
  write_file w path content = Ok w' → files w' !! path = Some content.
Proof.
  unfold write_file. destruct (decide _); [done |].
  intros [= <-]; simpl. apply lookup_insert_eq.
Qed.

(** C10.  The file is written right after the score is derived, before
    the ranking, the filtering and the regression: a run that stops in one
    of these later steps (or completes) leaves batterpoints.csv holding
    the enriched table, whatever the fitting routine does; a run that
    stops earlier has run none of them and has written nothing. *)
Theorem export_precedes_analysis {Summary : Type}
    (fit : OLSModel → result Summary) (w w' : World Summary) acquired ex :
  main fit w acquired = (w', ex) →
  match ex with
  | Completed | Aborted Ranking _ | Aborted Regression _ =>
      ∃ batters enriched,
        acquired = Ok batters ∧
        add_Points batters = Ok enriched ∧
        files w' !! "batterpoints.csv"%string = Some (to_csv enriched)
  | Aborted Acquisition _ | Aborted Score _ | Aborted Export _ =>
      w' = w
  end.
Proof.
  unfold main.
  destruct acquired as [batters|e]; [| by intros [= <- <-]].
  destruct (add_Points batters) as [enriched|e] eqn:Hadd;
    [| by intros [= <- <-]].
  destruct (write_file w "batterpoints.csv" (to_csv enriched))
    as [w1|e] eqn:Hwrite; [| by intros [= <- <-]].
  apply write_file_lookup in Hwrite.
  destruct (corrs enriched) as [cs|e].
  - destruct (model enriched (reg_variables (variables cs))) as [m|e].
    + destruct (fit m) as [s|e]; intros [= <- <-]; by exists batters, enriched.
    + intros [= <- <-]. by exists batters, enriched.
  - intros [= <- <-]. by exists batters, enriched.
Qed.

Lemma export_precedes_analysis_witness :
  (main strict_fit fresh (Ok gappy)).2 = Aborted Regression MissingDataError ∧
  files (main strict_fit fresh (Ok gappy)).1 !! "batterpoints.csv"%string
  = Some (to_csv gappy_scored).
Proof.
  assert (Hrun : (main strict_fit fresh (Ok gappy)).2
                 = Aborted Regression MissingDataError)
    by (vm_compute; reflexivity).
  split; [exact Hrun |].
  assert (Hmain : main strict_fit fresh (Ok gappy)
                  = ((main strict_fit fresh (Ok gappy)).1,
                     Aborted Regression MissingDataError)).
  { rewrite <- Hrun. apply surjective_pairing. }
  destruct (export_precedes_analysis _ _ _ _ _ Hmain)
    as (batters & enriched & Heq & Hadd & Hfile).
  injection Heq as <-.
  rewrite add_Points_gappy in Hadd. injection Hadd as <-. exact Hfile.
Defined.

(** * Further properties of the script *)

(** ** The score column *)

Lemma getnum_inv df k s :
  getnum df k = Ok s → assoc k (columns df) = Some (Numeric s).
Proof.
  unfold getnum, getitem.
  destruct (assoc k (columns df)) as [[s'|s']|]; simpl; [|done..].
  by intros [= ->].
Qed.

Lemma getnum_agree df1 df2 k :
  getitem df1 k = getitem df2 k → getnum df1 k = getnum df2 k.
Proof. unfold getnum. by intros ->. Qed.

Lemma getitem_setitem_ne df k k' c :
  k ≠ k' → getitem (setitem df k c) k' = getitem df k'.
Proof.
  intros Hne. unfold getitem, setitem; simpl. by rewrite assoc_assign_ne.
Qed.

Lemma Points_agree df1 df2 :
  (∀ k, k ∈ inputs → getitem df1 k = getitem df2 k) → Points df1 = Points df2.
Proof.
  intros Hagree. unfold Points.
  rewrite (getnum_agree df1 df2 "R"), (getnum_agree df1 df2 "H"),
    (getnum_agree df1 df2 "2B"), (getnum_agree df1 df2 "3B"),
    (getnum_agree df1 df2 "HR"), (getnum_agree df1 df2 "RBI"),
    (getnum_agree df1 df2 "SB"), (getnum_agree df1 df2 "CS"),
    (getnum_agree df1 df2 "BB"), (getnum_agree df1 df2 "IBB"),
    (getnum_agree df1 df2 "HBP"), (getnum_agree df1 df2 "SO");
    first [reflexivity | apply Hagree; in_list].
Qed.

Lemma assign_assign {A : Type} (k : string) (a b : A) l :
  assign k a (assign k b l) = assign k a l.
Proof.
  induction l as [|[k' c] l IH]; simpl.
  - by rewrite decide_True.
  - destruct (decide (k' = k)) as [->|Hne]; simpl.
    + by rewrite decide_True.
    + rewrite decide_False by done. by rewrite IH.
Qed.

Lemma Points_not_input : "Points"%string ∉ inputs.
Proof.
  unfold inputs. intros Hin.
  repeat (apply elem_of_cons in Hin as [Hin|Hin]; [discriminate Hin |]).
  by apply elem_of_nil in Hin.
Qed.

(** X1.  The score is a function of the twelve input columns alone:
    two tables that agree on them get the same Points (or raise the same
    exception), whatever their other columns, rows labels or column order
    are.  In particular, scoring a table that already carries its score
    changes nothing. *)
Theorem Points_depends_on_inputs_only (df1 df2 batters enriched : DataFrame) :
  ((∀ k, k ∈ inputs → getitem df1 k = getitem df2 k) →
   Points df1 = Points df2) ∧
  (∀ k c, k ∉ inputs → Points (setitem df1 k c) = Points df1) ∧
  (add_Points batters = Ok enriched → add_Points enriched = Ok enriched).
Proof.
  assert (Hset : ∀ df k c, k ∉ inputs → Points (setitem df k c) = Points df).
  { intros df k c Hk. apply Points_agree. intros k' Hk'.
    apply getitem_setitem_ne. by intros ->. }
  split; [apply Points_agree |]. split; [apply Hset |].
  intros (p & Hp & ->)%add_Points_inv.
  unfold add_Points. rewrite (Hset _ _ _ Points_not_input), Hp. simpl.
  unfold setitem; simpl. by rewrite assign_assign.
Qed.

Lemma names_assign {A : Type} (k : string) (a : A) l :
  (assign k a l).*1 = if decide (k ∈ l.*1) then l.*1 else l.*1 ++ [k].
Proof.
  induction l as [|[k' c] l IH].
  - rewrite decide_False by apply not_elem_of_nil. done.
  - simpl assign. destruct (decide (k' = k)) as [->|Hne].
    + rewrite !fmap_cons. cbn [fst]. rewrite decide_True; [done | left].
    + rewrite !fmap_cons, IH. cbn [fst].
      destruct (decide (k ∈ l.*1)) as [Hin|Hnin].
      * rewrite decide_True; [done | by right].
      * rewrite decide_False; [done |].
        rewrite not_elem_of_cons. split; [by intros -> | done].
Qed.

Lemma elem_of_assign {A : Type} (k : string) (a : A) l kc :
  kc ∈ assign k a l → kc = (k, a) ∨ kc ∈ l.
Proof.
  induction l as [|[k' c] l IH]; simpl.
  - intros ->%list_elem_of_singleton. by left.
  - destruct (decide (k' = k)) as [->|Hne].
    + intros [->|Hin]%elem_of_cons; [by left | right; by right].
    + intros [->|Hin]%elem_of_cons; [right; left |].
      destruct (IH Hin) as [->|Hl]; [by left | right; by right].
Qed.

Lemma length_sadd a b : length (sadd a b) = (length a `min` length b)%nat.
Proof. apply length_zip_with. Qed.

Lemma length_smul s k : length (smul s k) = length s.
Proof. apply length_fmap. Qed.

(** On a well-formed table the score column has one entry per row. *)
Lemma length_Points batters p :
  well_formed batters → Points batters = Ok p → length p = nrows batters.
Proof.
  intros Hwf. unfold Points.
  destruct (getnum batters "R") as [s1|] eqn:E1; simpl; [|done].
  destruct (getnum batters "H") as [s2|] eqn:E2; simpl; [|done].
  destruct (getnum batters "2B") as [s3|] eqn:E3; simpl; [|done].
  destruct (getnum batters "3B") as [s4|] eqn:E4; simpl; [|done].
  destruct (getnum batters "HR") as [s5|] eqn:E5; simpl; [|done].
  destruct (getnum batters "RBI") as [s6|] eqn:E6; simpl; [|done].
  destruct (getnum batters "SB") as [s7|] eqn:E7; simpl; [|done].
  destruct (getnum batters "CS") as [s8|] eqn:E8; simpl; [|done].
  destruct (getnum batters "BB") as [s9|] eqn:E9; simpl; [|done].
  destruct (getnum batters "IBB") as [s10|] eqn:E10; simpl; [|done].
  destruct (getnum batters "HBP") as [s11|] eqn:E11; simpl; [|done].
  destruct (getnum batters "SO") as [s12|] eqn:E12; simpl; [|done].
  intros [= <-].
  apply getnum_inv, (well_formed_length _ _ _ Hwf) in
    E1, E2, E3, E4, E5, E6, E7, E8, E9, E10, E11, E12.
  rewrite !length_sadd, !length_smul. lia.
Qed.

(** X2.  Adding the score keeps the table: the row index and every
    column other than Points are unchanged, Points is appended as the
    last column -- or replaces, in place, a column of that name the
    acquired table already had -- and a well-formed table (distinct
    labels, one entry per row in every column) stays well-formed. *)
Theorem add_Points_keeps_table batters enriched :
  add_Points batters = Ok enriched →
  index enriched = index batters ∧
  (∀ k, k ≠ "Points"%string → getitem enriched k = getitem batters k) ∧
  (∃ p, Points batters = Ok p ∧ getitem enriched "Points" = Ok (Numeric p)) ∧
  names enriched
  = (if decide ("Points"%string ∈ names batters) then names batters
     else names batters ++ ["Points"%string]) ∧
  (well_formed batters → well_formed enriched).
Proof.
  intros (p & Hp & ->)%add_Points_inv.
  split; [done |]. split.
  { intros k Hk. apply getitem_setitem_ne. by intros <-. }
  split.
  { exists p. split; [done |]. unfold getitem, setitem; simpl.
    by rewrite assoc_assign_eq. }
  split; [apply names_assign |].
  intros Hwf. pose proof Hwf as [Hnd Hall]. split.
  - unfold names, setitem; simpl. rewrite names_assign.
    destruct (decide _) as [Hin|Hnin]; [done |].
    apply NoDup_app. split; [done |]. split.
    + intros k Hk Hk'%list_elem_of_singleton. subst k. by apply Hnin.
    + apply NoDup_singleton.
  - apply Forall_forall. intros kc [->|Hin]%elem_of_assign.
    + change (length p = nrows batters). by apply length_Points.
    + rewrite Forall_forall in Hall. by apply (Hall kc).
Qed.

Lemma add_Points_keeps_table_witness :
  names scored = names sample ++ ["Points"%string] ∧
  getitem scored "H" = getitem sample "H".
Proof.
  destruct (add_Points_keeps_table sample scored add_Points_sample)
    as (_ & Hother & _ & Hnames & _).
  split; [exact Hnames | by apply Hother].
Defined.

(** ** A missing input column *)

Lemma getnum_missing df k : k ∉ names df → getnum df k = Raise (KeyError k).
Proof.
  intros Hk. unfold getnum, getitem.
  by rewrite (proj2 (assoc_None k (columns df)) Hk).
Qed.

(** X3.  When an input column is missing, the script stops in the score
    derivation with the [KeyError] of the first missing input (the inputs
    before it being numeric columns): no Points column is made, nothing is
    written and no later step runs. *)
Theorem Points_missing_column {Summary : Type}
    (fit : OLSModel → result Summary) (w : World Summary)
    batters pre k post :
  inputs = pre ++ k :: post →
  (∀ k', k' ∈ pre → ∃ s, getnum batters k' = Ok s) →
  k ∉ names batters →
  Points batters = Raise (KeyError k) ∧
  add_Points batters = Raise (KeyError k) ∧
  main fit w (Ok batters) = (w, Aborted Score (KeyError k)).
Proof.
  intros Hsplit Hpre Hk.
  assert (HP : Points batters = Raise (KeyError k)).
  { unfold inputs in Hsplit. unfold Points.
    do 12 (destruct pre as [|? pre];
           [ injection Hsplit as <- _;
             repeat match goal with
             | |- context [getnum batters ?key] =>
                 first
                   [ rewrite (getnum_missing batters key Hk); simpl
                   | let s := fresh "s" in
                     let E := fresh "E" in
                     destruct (Hpre key ltac:(in_list)) as [s E];
                     rewrite E; simpl ]
             end; reflexivity
           | injection Hsplit as <- Hsplit ]).
    by destruct pre. }
  split; [exact HP |].
  assert (HA : add_Points batters = Raise (KeyError k)).
  { unfold add_Points. by rewrite HP. }
  split; [exact HA |]. unfold main. by rewrite HA.
Qed.

Lemma Points_missing_column_witness :
  main strict_fit fresh (Ok sample_no_HR)
  = (fresh, Aborted Score (KeyError "HR")).
Proof.
  apply (Points_missing_column strict_fit fresh sample_no_HR
           ["R"; "H"; "2B"; "3B"]%string "HR"%string
           ["RBI"; "SB"; "CS"; "BB"; "IBB"; "HBP"; "SO"]%string).
  - reflexivity.
  - intros k' Hk'.
    repeat (apply elem_of_cons in Hk' as [->|Hk']; [by eexists |]).
    by apply elem_of_nil in Hk'.
  - apply (bool_decide_unpack ("HR"%string ∉ names sample_no_HR)).
    vm_compute. exact I.
Defined.

(** ** Shape of the exported file *)

(** X4.  The file written for any table is rectangular: one header line
    and one line per row, every line with one field more than the table
    has columns.  The header names the columns in order behind an
    unlabelled field; the line of a row starts with its index label, and
    its field for a numeric column is the cell's number, or empty when
    the cell is NaN. *)
Theorem to_csv_rectangular df :
  length (to_csv df) = S (nrows df) ∧
  (∀ line, line ∈ to_csv df → length line = S (length (columns df))) ∧
  (∀ j k c, columns df !! j = Some (k, c) →
            header (to_csv df) !! S j = Some (Label k)) ∧
  (∀ i z, index df !! i = Some z →
     ∃ line, records (to_csv df) !! i = Some line ∧
             line !! 0%nat = Some (RowLabel z) ∧
             ∀ j k s, columns df !! j = Some (k, Numeric s) →
               line !! S j = Some (match s !! i with
                                   | Some (Some q) => Number q
                                   | _ => Blank
                                   end)).
Proof.
  split; [unfold to_csv; simpl; by rewrite length_imap |].
  split.
  { unfold to_csv. intros line [->|Hin]%elem_of_cons.
    - simpl. unfold names. by rewrite !length_fmap.
    - apply list_elem_of_lookup_1 in Hin as [i Hi].
      rewrite list_lookup_imap in Hi.
      destruct (index df !! i) as [z|]; simpl in Hi; [|done].
      injection Hi as <-. simpl. by rewrite length_fmap. }
  split.
  { intros j k c Hj. rewrite header_to_csv. simpl. unfold names.
    by rewrite !list_lookup_fmap, Hj. }
  intros i z Hz. eexists. split.
  { unfold records, to_csv; simpl. by rewrite list_lookup_imap, Hz. }
  split; [done |].
  intros j k s Hj. simpl. by rewrite list_lookup_fmap, Hj.
Qed.

(** ** The ranking *)






(** ** From the score to the fit *)








(** ** Side effects of a run *)

(** X7.  Whatever the provider returns and the fitting routine does, a
    run changes no file other than batterpoints.csv and leaves the
    permissions alone; it prints exactly one thing, the report of the
    fit, and only when it completes -- an aborted run prints nothing. *)
Theorem main_side_effects {Summary : Type}
    (fit : OLSModel → result Summary) (w w' : World Summary) acquired ex :
  main fit w acquired = (w', ex) →
  read_only w' = read_only w ∧
  (∀ path, path ≠ "batterpoints.csv"%string →
           files w' !! path = files w !! path) ∧
  (ex ≠ Completed → stdout w' = stdout w) ∧
  (ex = Completed →
   ∃ m residuals, fit m = Ok residuals ∧ stdout w' = stdout w ++ [residuals]).
Proof.
  unfold main.
  destruct acquired as [batters|e]; [| by intros [= <- <-]].
  destruct (add_Points batters) as [enriched|e]; [| by intros [= <- <-]].
  unfold write_file.
  destruct (decide _) as [Hro|Hrw]; [by intros [= <- <-] |].
  assert (Hother : ∀ path, path ≠ "batterpoints.csv"%string →
    <["batterpoints.csv"%string := to_csv enriched]> (files w) !! path
    = files w !! path).
  { intros path Hpath. by apply lookup_insert_ne. }
  destruct (corrs enriched) as [cs|e]; [| by intros [= <- <-]].
  destruct (model enriched (reg_variables (variables cs))) as [m|e];
    [| by intros [= <- <-]].
  destruct (fit m) as [s|e] eqn:Hfit; intros [= <- <-]; simpl; [| done].
  split; [done |]. split; [done |]. split; [done |].
  intros _. by exists m, s.
Qed.

Lemma main_side_effects_witness :
  stdout (main strict_fit fresh (Ok gappy)).1 = [] ∧
  files (main strict_fit fresh (Ok gappy)).1 !! "report.txt"%string = None.
Proof.
  destruct (main_side_effects strict_fit fresh
              (main strict_fit fresh (Ok gappy)).1 (Ok gappy)
              (main strict_fit fresh (Ok gappy)).2)
    as (_ & Hfiles & Hout & _).
  - symmetry. apply surjective_pairing.
  - split.
    + apply Hout. by vm_compute.
    + by rewrite Hfiles.
Defined.

(** X8.  Running the script again on the same data overwrites the file
    with the same content: the second run ends the way the first did and
    leaves the files as the first run left them. *)
Theorem rerun_overwrites {Summary : Type}
    (fit : OLSModel → result Summary) (w w1 w2 : World Summary)
    acquired ex1 ex2 :
  main fit w acquired = (w1, ex1) →
  main fit w1 acquired = (w2, ex2) →
  ex2 = ex1 ∧ files w2 = files w1 ∧ read_only w2 = read_only w1.
Proof.
  unfold main.
  destruct acquired as [batters|e];
    [| by intros [= <- <-] [= <- <-]].
  destruct (add_Points batters) as [enriched|e];
    [| by intros [= <- <-] [= <- <-]].
  unfold write_file.
  destruct (decide ("batterpoints.csv"%string ∈ read_only w)) as [Hro|Hrw].
  { intros [= <- <-]. rewrite decide_True by done. by intros [= <- <-]. }
  destruct (corrs enriched) as [cs|e].
  - destruct (model enriched (reg_variables (variables cs))) as [m|e].
    + destruct (fit m) as [s|e]; intros [= <- <-]; simpl;
        rewrite decide_False by done; intros [= <- <-]; simpl;
        by rewrite insert_insert_eq.
    + intros [= <- <-]; simpl. rewrite decide_False by done.
      intros [= <- <-]; simpl. by rewrite insert_insert_eq.
  - intros [= <- <-]; simpl. rewrite decide_False by done.
    intros [= <- <-]; simpl. by rewrite insert_insert_eq.
Qed.

Lemma rerun_overwrites_witness :
  (main strict_fit (main strict_fit fresh (Ok sample)).1 (Ok sample)).2
  = (main strict_fit fresh (Ok sample)).2 ∧
  files (main strict_fit (main strict_fit fresh (Ok sample)).1 (Ok sample)).1
  = files (main strict_fit fresh (Ok sample)).1.
Proof.
  destruct (rerun_overwrites strict_fit fresh
              (main strict_fit fresh (Ok sample)).1
              (main strict_fit (main strict_fit fresh (Ok sample)).1
                 (Ok sample)).1
              (Ok sample)
              (main strict_fit fresh (Ok sample)).2
              (main strict_fit (main strict_fit fresh (Ok sample)).1
                 (Ok sample)).2) as (Hex & Hfiles & _).
  - symmetry. apply surjective_pairing.
  - symmetry. apply surjective_pairing.
  - split; [exact Hex | exact Hfiles].
Defined.

(** ** The predictor list *)

Lemma reg_variables_app a b :
  reg_variables (a ++ b) = reg_variables a ++ reg_variables b.
Proof. unfold reg_variables. by rewrite !remove_from_filter, filter_app. Qed.


(** X9.  Filtering distributes over the two slices of the candidate
    list, filtering twice is filtering once, names keep their
    multiplicity unless denylisted, and the regression never gets more
    than forty predictors. *)
Theorem reg_variables_algebra (cs : LabelSeries) (a b : list string) :
  reg_variables (a ++ b) = reg_variables a ++ reg_variables b ∧
  reg_variables (reg_variables a) = reg_variables a ∧
  (length (reg_variables a) ≤ length a)%nat ∧
  (∀ k, k ∉ to_remove →
        length (filter (λ k', k' = k) (reg_variables a))
        = length (filter (λ k', k' = k) a)) ∧
  reg_variables (variables cs)
  = reg_variables (labels (top_pos cs)) ++ reg_variables (labels (bot_pos cs)) ∧
  (length (reg_variables (variables cs)) ≤ 40)%nat.
Proof.
  split; [apply reg_variables_app |].
  split.
  { unfold reg_variables. rewrite !remove_from_filter.
    rewrite list_filter_filter. apply list_filter_iff. tauto. }
  assert (Hlen : ∀ l, (length (reg_variables l) ≤ length l)%nat).
  { intros l. unfold reg_variables. rewrite remove_from_filter.
    apply length_filter. }
  split; [apply Hlen |].
  split.
  { intros k Hk. unfold reg_variables. rewrite remove_from_filter.
    rewrite list_filter_filter. f_equal. apply list_filter_iff.
    intros k'. split; [tauto |]. intros ->. done. }
  split.
  { rewrite <- reg_variables_app. f_equal. rewrite variables_slices.
    unfold top_pos, bot_pos, head_, tail_. done. }
  etransitivity; [apply Hlen |]. rewrite length_variables. lia.
Qed.




(** ** Where the score is defined *)






(** ** The scores in the file *)

(** X12.  When Points is a new column, the exported file ends every line
    with the score: the header's last field is the label Points, and the
    last field of the line of a row is that row's score, empty when the
    score is NaN. *)
Theorem to_csv_holds_scores batters enriched :
  add_Points batters = Ok enriched →
  "Points"%string ∉ names batters →
  last (header (to_csv enriched)) = Some (Label "Points") ∧
  ∀ i line,
    records (to_csv enriched) !! i = Some line →
    last line = Some (match at_row enriched "Points" i with
                      | Some (Some q) => Number q
                      | _ => Blank
                      end).
Proof.
  intros (p & _ & ->)%add_Points_inv Hfresh.
  assert (Hcols : columns (setitem batters "Points" (Numeric p))
                  = columns batters ++ [("Points"%string, Numeric p)]).
  { unfold setitem; simpl. by apply assign_fresh. }
  split.
  - rewrite header_to_csv. unfold names. rewrite Hcols, !fmap_app. simpl.
    by rewrite app_comm_cons, last_snoc.
  - intros i line (z & _ & ->)%records_to_csv_lookup.
    rewrite at_row_setitem, Hcols, fmap_app. simpl.
    rewrite app_comm_cons, last_snoc. by destruct (p !! i) as [[q|]|].
Qed.

Lemma to_csv_holds_scores_witness :
  last (header (to_csv scored)) = Some (Label "Points") ∧
  ∃ line, records (to_csv scored) !! 2%nat = Some line ∧
          last line = Some (Number (8 # 2)).
Proof.
  destruct (to_csv_holds_scores sample scored add_Points_sample) as [Hh Hrec].
  - apply (bool_decide_unpack ("Points"%string ∉ names sample)).
    vm_compute. exact I.
  - split; [exact Hh |]. eexists. split; [reflexivity |].
    by rewrite (Hrec 2%nat _ eq_refl).
Defined.

(** ** Short rankings *)

(** X13.  With at most ten ranked columns both slices are the whole
    ranking, so the candidate list is the ranking's labels twice over;
    with none, there is no candidate and no predictor. *)
Theorem variables_short_ranking (cs : LabelSeries) :
  (length cs ≤ 10)%nat →
  top_pos cs = cs ∧ bot_pos cs = cs ∧
  variables cs = labels cs ++ labels cs ∧
  reg_variables (variables cs)
  = reg_variables (labels cs) ++ reg_variables (labels cs) ∧
  (cs = [] → reg_variables (variables cs) = []).
Proof.
  intros Hlen.
  assert (Htop : top_pos cs = cs).
  { unfold top_pos, head_. apply take_ge. lia. }
  assert (Hbot : bot_pos cs = cs).
  { unfold bot_pos, tail_.
    by replace (length cs - 10)%nat with 0%nat by lia. }
  assert (Hvars : variables cs = labels cs ++ labels cs).
  { unfold variables. rewrite Htop, Hbot. unfold head_.
    by rewrite !take_ge by lia. }
  split; [done |]. split; [done |]. split; [done |].
  split; [by rewrite Hvars, reg_variables_app |].
  by intros ->.
Qed.

Lemma variables_short_ranking_witness :
  variables ranking = labels ranking ++ labels ranking.
Proof.
  destruct (variables_short_ranking ranking) as (_ & _ & Hvars & _).
  - simpl. lia.
  - exact Hvars.
Defined.
